(** * Verification of the player controller and block interaction of the voxel demo

    Shallow embedding of [src/src/main.rs].  The [f32] quantities of the
    source are modelled exactly as rationals ([Q]); integer-snapped positions
    produced by [floor] are kept as integer triples.  The engine's own maths
    (quaternions, [Transform::forward]/[right], square root) is not code of
    this repository: it is taken as parameters of a Section. *)

From Stdlib Require Import QArith Qround Qminmax ZArith List Permutation Lia Bool.
Import ListNotations.
Open Scope Q_scope.

(** ** Vectors *)

Record Vec3 := mkVec3 { vx : Q; vy : Q; vz : Q }.

Definition vzero : Vec3 := mkVec3 0 0 0.
Definition vY : Vec3 := mkVec3 0 1 0.

Definition vadd (a b : Vec3) : Vec3 :=
  mkVec3 (vx a + vx b) (vy a + vy b) (vz a + vz b).
Definition vsub (a b : Vec3) : Vec3 :=
  mkVec3 (vx a - vx b) (vy a - vy b) (vz a - vz b).
(** [v * s] for a vector and a scalar. *)
Definition vscale (a : Vec3) (s : Q) : Vec3 :=
  mkVec3 (vx a * s) (vy a * s) (vz a * s).
Definition vdot (a b : Vec3) : Q := vx a * vx b + vy a * vy b + vz a * vz b.
(** [v.y = y] *)
Definition vset_y (a : Vec3) (y : Q) : Vec3 := mkVec3 (vx a) y (vz a).

(** Integer-valued vectors: the results of [Vec3::floor]. *)
Record IVec3 := mkIVec3 { ix : Z; iy : Z; iz : Z }.

Definition floor3 (a : Vec3) : IVec3 :=
  mkIVec3 (Qfloor (vx a)) (Qfloor (vy a)) (Qfloor (vz a)).
Definition of_ivec (p : IVec3) : Vec3 :=
  mkVec3 (inject_Z (ix p)) (inject_Z (iy p)) (inject_Z (iz p)).
Definition ivec_eqb (a b : IVec3) : bool :=
  Z.eqb (ix a) (ix b) && Z.eqb (iy a) (iy b) && Z.eqb (iz a) (iz b).

Definition Qltb (a b : Q) : bool := negb (Qle_bool b a).

(** ** Constants *)

Definition PLAYER_SPEED : Q := 5.
Definition JUMP_SPEED : Q := 5.
(** [let gravity = -9.81;] in [apply_gravity] *)
Definition gravity : Q := -(981 # 100).
(** [let sensitivity = 0.1;] in [mouse_look] *)
Definition sensitivity : Q := 1 # 10.
(** The pitch bound [1.54] of [mouse_look]. *)
Definition pitch_limit : Q := 154 # 100.

(** [f32::clamp]: [if x < min { x = min } if x > max { x = max } x]. *)
Definition f32_clamp (v lo hi : Q) : Q :=
  let v := if Qltb v lo then lo else v in
  if Qltb hi v then hi else v.

(** ** Per-frame input *)

Record Keys := mkKeys {
  key_w : bool;  (** [keys.pressed(KeyCode::KeyW)] *)
  key_s : bool;
  key_d : bool;
  key_a : bool;
  space_just_pressed : bool  (** [keys.just_pressed(KeyCode::Space)] *)
}.

Record Buttons := mkButtons {
  left_just_pressed : bool;
  right_just_pressed : bool
}.

(** ** Components *)

Record CameraController := mkController { pitch : Q; yaw : Q }.

Record Velocity := mkVelocity { linvel : Vec3; on_ground : bool }.

(** [player_jump] *)
Definition player_jump (keys : Keys) (v : Velocity) : Velocity :=
  if on_ground v && space_just_pressed keys
  then mkVelocity (vset_y (linvel v) 5) false
  else v.

(** ** Entities and the world, for the block events *)

Inductive Kind := KPlayer | KLight | KBlock.

Definition is_player (k : Kind) : bool :=
  match k with KPlayer => true | _ => false end.

Record Entity := mkEntity { eid : nat; etranslation : Vec3; ekind : Kind }.

Record World := mkWorld { entities : list Entity; next_eid : nat }.

Definition spawn (k : Kind) (pos : Vec3) (w : World) : World :=
  mkWorld (entities w ++ [mkEntity (next_eid w) pos k]) (S (next_eid w)).

(** [handle_place_block]: one spawned cube per event, at [pos + Vec3::Y * 0.5]. *)
Definition handle_place_block (events : list IVec3) (w : World) : World :=
  fold_left (fun w pos => spawn KBlock (vadd (of_ivec pos) (vscale vY (1 # 2))) w)
    events w.

(** The loop body of [handle_despawn_block] for one event: iterate the query
    [Query<(Entity, &Transform), Without<Player>>] and take the first entity
    whose floored translation equals the event position ([break]). *)
Definition despawn_target (pos : IVec3) (es : list Entity) : option Entity :=
  find (fun e => ivec_eqb (floor3 (etranslation e)) pos)
    (filter (fun e => negb (is_player (ekind e))) es).

(** The despawn commands issued for a list of events.  Commands are deferred,
    so every event scans the same snapshot of the query. *)
Definition despawn_commands (events : list IVec3) (es : list Entity) : list nat :=
  flat_map (fun pos => match despawn_target pos es with
                       | Some e => [eid e]
                       | None => []
                       end) events.

Definition apply_despawns (ids : list nat) (w : World) : World :=
  mkWorld (filter (fun e => negb (existsb (Nat.eqb (eid e)) ids)) (entities w))
    (next_eid w).

(** [handle_despawn_block] *)
Definition handle_despawn_block (events : list IVec3) (w : World) : World :=
  apply_despawns (despawn_commands events (entities w)) w.

(** The entities spawned by [setup], in spawn order: the directional light,
    the 16x16 ground, the player camera. *)
Definition ground_size : nat := 16.

Definition ground_positions : list Vec3 :=
  flat_map (fun x => map (fun z => mkVec3 (inject_Z (Z.of_nat x)) 0 (inject_Z (Z.of_nat z)))
                         (seq 0 ground_size))
           (seq 0 ground_size).

Definition setup_world : World :=
  let w := mkWorld [] 0 in
  let w := spawn KLight (mkVec3 4 8 4) w in
  let w := fold_left (fun w p => spawn KBlock p w) ground_positions w in
  spawn KPlayer (mkVec3 8 5 8) w.

(** The directional light spawned by [setup] at [(4.0, 8.0, 4.0)]. *)
Definition setup_light : Entity := mkEntity 0 (mkVec3 4 8 4) KLight.

(** ** Systems over the player transform

    The rotation type and its operations belong to the engine (glam's [Quat],
    [Quat::from_rotation_y], [Quat::from_rotation_x], quaternion product,
    [Transform::forward], [Transform::right]) as does [f32::sqrt]; they are
    parameters here. *)
Section Systems.

Variable Quat : Type.
Variables from_rotation_y from_rotation_x : Q -> Quat.
Variable qmul : Quat -> Quat -> Quat.
Variables forward_of right_of : Quat -> Vec3.
Variable qsqrt : Q -> Q.

Record Transform := mkTransform { translation : Vec3; rotation : Quat }.

(** glam's [normalize_or_zero]: [rcp = 1 / length]; [self * rcp] when [rcp]
    is finite and positive, i.e. when the length is positive, else zero. *)
Definition normalize_or_zero (v : Vec3) : Vec3 :=
  let len := qsqrt (vdot v v) in
  if Qle_bool len 0 then vzero else vscale v (/ len).

(** The direction of [player_movement], after [direction.y = 0.0] and
    [normalize_or_zero]. *)
Definition movement_direction (keys : Keys) (t : Transform) : Vec3 :=
  let forward := forward_of (rotation t) in
  let right := right_of (rotation t) in
  let direction := vzero in
  let direction := if key_w keys then vadd direction forward else direction in
  let direction := if key_s keys then vsub direction forward else direction in
  let direction := if key_d keys then vadd direction right else direction in
  let direction := if key_a keys then vsub direction right else direction in
  let direction := vset_y direction 0 in
  normalize_or_zero direction.

(** The displacement [direction * PLAYER_SPEED * dt] of [player_movement]. *)
Definition movement_displacement (keys : Keys) (dt : Q) (t : Transform) : Vec3 :=
  vscale (vscale (movement_direction keys t) PLAYER_SPEED) dt.

(** [player_movement] *)
Definition player_movement (keys : Keys) (dt : Q) (t : Transform) : Transform :=
  let tr := vadd (translation t) (movement_displacement keys dt t) in
  (* Basic jump (no gravity) *)
  let tr := if space_just_pressed keys
            then vset_y tr (vy tr + JUMP_SPEED * dt) else tr in
  (* Ground clamp *)
  let tr := if Qltb (vy tr) 1 then vset_y tr 1 else tr in
  mkTransform tr (rotation t).

(** One iteration of the event loop of [mouse_look]; [delta] is
    [event.delta] as [(x, y)]. *)
Definition mouse_look_event (dt : Q) (st : Transform * CameraController)
    (delta : Q * Q) : Transform * CameraController :=
  let '(t, c) := st in
  let yaw' := yaw c - fst delta * sensitivity * dt in
  let pitch' := pitch c + snd delta * sensitivity * dt in
  (* Clamp pitch to avoid flipping *)
  let pitch' := f32_clamp pitch' (- pitch_limit) pitch_limit in
  (mkTransform (translation t)
     (qmul (from_rotation_y yaw') (from_rotation_x (- pitch'))),
   mkController pitch' yaw').

(** [mouse_look]: the events of the frame, in arrival order. *)
Definition mouse_look (dt : Q) (events : list (Q * Q))
    (st : Transform * CameraController) : Transform * CameraController :=
  fold_left (mouse_look_event dt) events st.

(** [apply_gravity], for the one entity with a [Velocity]. *)
Definition apply_gravity (dt : Q) (st : Transform * Velocity) : Transform * Velocity :=
  let '(t, v) := st in
  let v := if negb (on_ground v)
           then mkVelocity (vset_y (linvel v) (vy (linvel v) + gravity * dt)) (on_ground v)
           else v in
  let tr := vadd (translation t) (vscale (linvel v) dt) in
  (* ground collision at y = 1.0 (top of ground cube) *)
  if Qle_bool (vy tr) 1
  then (mkTransform (vset_y tr 1) (rotation t), mkVelocity (vset_y (linvel v) 0) true)
  else (mkTransform tr (rotation t), v).

(** The loop [for i in 1..10] of [place_or_destroy_block]; the result is the
    pair (place events, despawn events) written in the frame. *)
Fixpoint block_scan (b : Buttons) (origin direction : Vec3) (is : list Z)
    : list IVec3 * list IVec3 :=
  match is with
  | [] => ([], [])
  | i :: rest =>
      let check_pos := floor3 (vadd origin (vscale direction (inject_Z i))) in
      let place_pos := floor3 (vadd origin (vscale direction (inject_Z i - 1))) in
      if left_just_pressed b then ([], [check_pos])
      else if right_just_pressed b then ([place_pos], [])
      else block_scan b origin direction rest
  end.

Definition scan_range : list Z := map Z.of_nat (seq 1 9).

(** [place_or_destroy_block] *)
Definition place_or_destroy_block (b : Buttons) (cam : Transform)
    : list IVec3 * list IVec3 :=
  block_scan b (translation cam) (forward_of (rotation cam)) scan_range.

End Systems.

Arguments mkTransform {Quat}.
Arguments translation {Quat}.
Arguments rotation {Quat}.

(** Following the vertical kinematics after a jump: apply [apply_gravity]
    frame by frame and stop at the first frame after which the vertical
    position is [<= 1.0]; [None] if that does not happen within [dts]. *)
Fixpoint fall_until {Quat} (dts : list Q) (st : Transform Quat * Velocity)
    : option (Transform Quat * Velocity) :=
  match dts with
  | [] => None
  | dt :: rest =>
      let st' := apply_gravity Quat dt st in
      if Qle_bool (vy (translation (fst st'))) 1 then Some st'
      else fall_until rest st'
  end.

(** ** Properties used by the claims *)

Definition pitch_in_range (p : Q) : Prop := - pitch_limit <= p /\ p <= pitch_limit.

(** [CameraController { pitch: 0.0, yaw: 0.0 }] spawned by [setup]. *)
Definition initial_controller : CameraController := mkController 0 0.

(** Cell [p] contains point [v]: [p <= v < p + 1] on each axis. *)
Definition cell_contains (p : IVec3) (v : Vec3) : Prop :=
  inject_Z (ix p) <= vx v < inject_Z (ix p + 1)
  /\ inject_Z (iy p) <= vy v < inject_Z (iy p + 1)
  /\ inject_Z (iz p) <= vz v < inject_Z (iz p + 1).

(** ** Helper lemmas *)

Lemma f32_clamp_bounds (v lo hi : Q) :
  lo <= hi -> lo <= f32_clamp v lo hi /\ f32_clamp v lo hi <= hi.
Proof.
  intros Hlh. unfold f32_clamp, Qltb.
  destruct (Qle_bool lo v) eqn:E1; simpl.
  - apply Qle_bool_iff in E1.
    destruct (Qle_bool v hi) eqn:E2; simpl.
    + apply Qle_bool_iff in E2. split; assumption.
    + split; [assumption | apply Qle_refl].
  - destruct (Qle_bool lo hi) eqn:E2; simpl.
    + split; [apply Qle_refl | assumption].
    + apply Qle_bool_iff in Hlh. congruence.
Qed.

Lemma pitch_limit_ordered : - pitch_limit <= pitch_limit.
Proof. apply Qle_bool_iff. reflexivity. Qed.

Lemma mouse_look_event_pitch {Quat} fy fx (qm : Quat -> Quat -> Quat) dt st e :
  pitch (snd (mouse_look_event Quat fy fx qm dt st e))
  = f32_clamp (pitch (snd st) + snd e * sensitivity * dt) (- pitch_limit) pitch_limit.
Proof. destruct st, e. reflexivity. Qed.

Lemma mouse_look_fold_range {Quat} fy fx (qm : Quat -> Quat -> Quat) dt evs st :
  pitch_in_range (pitch (snd st)) ->
  pitch_in_range (pitch (snd (mouse_look Quat fy fx qm dt evs st))).
Proof.
  unfold mouse_look. revert st.
  induction evs as [|e evs IH]; intros st H; simpl.
  - exact H.
  - apply IH. rewrite mouse_look_event_pitch.
    apply f32_clamp_bounds, pitch_limit_ordered.
Qed.

(** A landing step of [fall_until] is the clamping branch of [apply_gravity]. *)
Lemma fall_until_lands {Quat} dts (st st' : Transform Quat * Velocity) :
  fall_until dts st = Some st' ->
  vy (translation (fst st')) = 1 /\ vy (linvel (snd st')) = 0 /\ on_ground (snd st') = true.
Proof.
  revert st. induction dts as [|dt dts IH]; intros st H; simpl in H.
  - discriminate.
  - destruct st as [t v].
    destruct (apply_gravity Quat dt (t, v)) as [t1 v1] eqn:Eg.
    simpl in H.
    destruct (Qle_bool (vy (translation t1)) 1) eqn:Ey.
    + injection H as <-.
      unfold apply_gravity in Eg.
      set (v0 := if negb (on_ground v) then _ else v) in Eg.
      destruct (Qle_bool (vy (vadd (translation t) (vscale (linvel v0) dt))) 1) eqn:E.
      * injection Eg as <- <-. simpl. auto.
      * injection Eg as <- <-. cbn [translation] in Ey. rewrite E in Ey. discriminate.
    + exact (IH _ H).
Qed.

Lemma Qltb_compat (a a' b b' : Q) : a == a' -> b == b' -> Qltb a b = Qltb a' b'.
Proof.
  intros Ha Hb. unfold Qltb. f_equal.
  apply eq_true_iff_eq. rewrite !Qle_bool_iff. rewrite Ha, Hb. reflexivity.
Qed.

Lemma normalize_or_zero_zero {qsqrt} (v : Vec3) :
  vx v == 0 -> vy v == 0 -> vz v == 0 ->
  vx (normalize_or_zero qsqrt v) == 0 /\ vy (normalize_or_zero qsqrt v) == 0
  /\ vz (normalize_or_zero qsqrt v) == 0.
Proof.
  intros Hx Hy Hz. unfold normalize_or_zero.
  destruct (Qle_bool _ 0); simpl.
  - repeat split; reflexivity.
  - rewrite Hx, Hy, Hz. repeat split; ring.
Qed.

(** With each pair of opposite movement keys held alike, the displacement
    [direction * PLAYER_SPEED * dt] is zero. *)
Lemma movement_displacement_opposite {Quat} fwd right qsqrt keys dt (t : Transform Quat) :
  key_w keys = key_s keys -> key_d keys = key_a keys ->
  vx (movement_displacement Quat fwd right qsqrt keys dt t) == 0
  /\ vy (movement_displacement Quat fwd right qsqrt keys dt t) == 0
  /\ vz (movement_displacement Quat fwd right qsqrt keys dt t) == 0.
Proof.
  intros Hws Hda.
  unfold movement_displacement, movement_direction. rewrite Hws, Hda.
  match goal with
  | |- context [normalize_or_zero qsqrt ?v] =>
      assert (Hn : vx (normalize_or_zero qsqrt v) == 0 /\ vy (normalize_or_zero qsqrt v) == 0
                   /\ vz (normalize_or_zero qsqrt v) == 0)
        by (apply normalize_or_zero_zero;
            destruct (key_s keys), (key_a keys); simpl; ring);
      destruct (normalize_or_zero qsqrt v) as [nx ny nz]
  end.
  simpl in *. destruct Hn as (Hx & Hy & Hz).
  rewrite Hx, Hy, Hz. repeat split; ring.
Qed.

(** [place_or_destroy_block] decides on the first step [i = 1] of its loop. *)
Lemma place_or_destroy_block_eq {Quat} fwd (b : Buttons) (cam : Transform Quat) :
  place_or_destroy_block Quat fwd b cam =
  (if left_just_pressed b
   then ([], [floor3 (vadd (translation cam) (vscale (fwd (rotation cam)) 1))])
   else if right_just_pressed b
   then ([floor3 (vadd (translation cam) (vscale (fwd (rotation cam)) 0))], [])
   else ([], [])).
Proof. destruct b as [[|] [|]]; reflexivity. Qed.

Lemma f32_clamp_pitch (v : Q) :
  f32_clamp v (- pitch_limit) pitch_limit == Qmax (- pitch_limit) (Qmin v pitch_limit).
Proof.
  unfold f32_clamp, Qltb.
  destruct (Qle_bool (- pitch_limit) v) eqn:E1; simpl.
  - apply Qle_bool_iff in E1.
    destruct (Qle_bool v pitch_limit) eqn:E2; simpl.
    + apply Qle_bool_iff in E2.
      rewrite Q.min_l by exact E2. rewrite Q.max_r by exact E1. reflexivity.
    + assert (E2' : pitch_limit < v)
        by (apply Qnot_le_lt; intro H; apply Qle_bool_iff in H; congruence).
      rewrite Q.min_r by (apply Qlt_le_weak; exact E2').
      rewrite Q.max_r by (apply Qle_bool_iff; reflexivity). reflexivity.
  - assert (E1' : v < - pitch_limit)
      by (apply Qnot_le_lt; intro H; apply Qle_bool_iff in H; congruence).
    simpl. rewrite Q.max_l; [reflexivity|].
    apply Qle_trans with v; [apply Q.le_min_l | apply Qlt_le_weak, E1'].
Qed.

Lemma floor3_place_pos (o d : Vec3) : floor3 (vadd o (vscale d 0)) = floor3 o.
Proof.
  unfold floor3. cbn [vadd vscale vx vy vz]. f_equal; apply Qfloor_comp; ring.
Qed.

Lemma find_filter_none {A} (f g : A -> bool) (l : list A) :
  find f (filter g l) = None -> forall x, In x l -> g x = true -> f x = false.
Proof.
  induction l as [|a l IH]; simpl; intros H x Hin Hg; [contradiction|].
  destruct (g a) eqn:Ega; simpl in H.
  - destruct (f a) eqn:Efa; [discriminate|].
    destruct Hin as [<-|Hin]; [exact Efa | exact (IH H x Hin Hg)].
  - destruct Hin as [<-|Hin]; [congruence | exact (IH H x Hin Hg)].
Qed.

Lemma find_filter_some {A} (f g : A -> bool) (l : list A) y :
  find f (filter g l) = Some y ->
  exists pre post, l = pre ++ y :: post /\ g y = true /\ f y = true
    /\ forall x, In x pre -> g x = true -> f x = false.
Proof.
  induction l as [|a l IH]; simpl; intros H; [discriminate|].
  destruct (g a) eqn:Ega; simpl in H.
  - destruct (f a) eqn:Efa.
    + injection H as <-. exists [], l. repeat split; auto. intros x [].
    + destruct (IH H) as (pre & post & -> & Hg & Hf & Hpre).
      exists (a :: pre), post. repeat split; auto.
      intros x [<-|Hx]; auto.
  - destruct (IH H) as (pre & post & -> & Hg & Hf & Hpre).
    exists (a :: pre), post. repeat split; auto.
    intros x [<-|Hx] Hgx; [congruence | auto].
Qed.

Lemma find_filter_hd {A} (f g : A -> bool) (l : list A) :
  find f (filter g l) = hd_error (filter (fun x => g x && f x) l).
Proof.
  induction l as [|a l IH]; simpl; [reflexivity|].
  destruct (g a) eqn:Eg; simpl; [destruct (f a) eqn:Ef; simpl|]; auto.
Qed.

Lemma Permutation_filter_bool {A} (f : A -> bool) (l l' : list A) :
  Permutation l l' -> Permutation (filter f l) (filter f l').
Proof.
  induction 1 as [| x l l' _ IH | x y l | l l' l'' _ IH1 _ IH2]; simpl.
  - constructor.
  - destruct (f x); [constructor|]; exact IH.
  - destruct (f x), (f y); try constructor; reflexivity.
  - etransitivity; eassumption.
Qed.

Lemma despawn_filter_keep (l : list Entity) (n : nat) :
  ~ In n (map eid l) ->
  filter (fun e => negb (existsb (Nat.eqb (eid e)) [n])) l = l.
Proof.
  induction l as [|a l IH]; simpl; intros Hn; [reflexivity|].
  destruct (Nat.eqb (eid a) n) eqn:E.
  - apply Nat.eqb_eq in E. exfalso. apply Hn. left. exact E.
  - simpl. f_equal. apply IH. intro H. apply Hn. right. exact H.
Qed.

(** ** Look controller *)

(** C1: the pitch starts at 0, inside [[-1.54, 1.54]], and every run of
    [mouse_look], whatever [dt] and the motion events of the frame, keeps it
    inside [[-1.54, 1.54]]. *)
Theorem mouse_look_pitch_invariant :
  pitch_in_range (pitch initial_controller) /\
  (forall (Quat : Type) fy fx (qm : Quat -> Quat -> Quat) dt evs st,
     pitch_in_range (pitch (snd st)) ->
     pitch_in_range (pitch (snd (mouse_look Quat fy fx qm dt evs st)))).
Proof.
  split.
  - split; apply Qle_bool_iff; reflexivity.
  - intros Quat fy fx qm dt evs st H. apply mouse_look_fold_range, H.
Qed.

Lemma mouse_look_pitch_invariant_witness :
  pitch_in_range (pitch (snd (mouse_look unit (fun _ => tt) (fun _ => tt) (fun _ _ => tt)
    (1 # 60) [(3, 900); (-2, 500)] (mkTransform vzero tt, initial_controller)))).
Proof.
  apply (proj2 mouse_look_pitch_invariant).
  apply (proj1 mouse_look_pitch_invariant).
Defined.

(** C6: one motion event [(dx, dy)] sets [yaw' = yaw - dx * 0.1 * dt],
    [pitch' = clamp(pitch + dy * 0.1 * dt, -1.54, 1.54)] and the rotation to
    [from_rotation_y(yaw') * from_rotation_x(-pitch')], the translation kept;
    the clamp is [max(-1.54, min(_, 1.54))]; a frame with no event changes
    nothing; the events of a frame are applied one after the other in arrival
    order. *)
Theorem mouse_look_update :
  forall (Quat : Type) fy fx (qm : Quat -> Quat -> Quat) (dt : Q),
    (forall (t : Transform Quat) (c : CameraController) (dx dy : Q),
       mouse_look Quat fy fx qm dt [(dx, dy)] (t, c) =
       (let yaw' := yaw c - dx * sensitivity * dt in
        let pitch' := f32_clamp (pitch c + dy * sensitivity * dt) (- pitch_limit) pitch_limit in
        (mkTransform (translation t) (qm (fy yaw') (fx (- pitch'))), mkController pitch' yaw')))
    /\ (forall v : Q,
          f32_clamp v (- pitch_limit) pitch_limit == Qmax (- pitch_limit) (Qmin v pitch_limit))
    /\ (forall st, mouse_look Quat fy fx qm dt [] st = st)
    /\ (forall st e es,
          mouse_look Quat fy fx qm dt (e :: es) st
          = mouse_look Quat fy fx qm dt es (mouse_look Quat fy fx qm dt [e] st)).
Proof.
  intros Quat fy fx qm dt. repeat split.
  - intros v. apply f32_clamp_pitch.
Qed.

(** ** Vertical kinematics *)

(** C2: from the ground at height 1.0 with zero velocity, after the jump
    fires, integrating [apply_gravity] with positive frame times until the
    height first reads [<= 1.0] ends at height exactly 1.0, vertical velocity
    exactly 0, and [on_ground] true. *)
Theorem jump_lands_exactly_on_ground :
  forall (Quat : Type) (t : Transform Quat) (keys : Keys) (dts : list Q) st',
    vy (translation t) = 1 ->
    space_just_pressed keys = true ->
    Forall (fun dt => 0 < dt) dts ->
    fall_until dts (t, player_jump keys (mkVelocity vzero true)) = Some st' ->
    vy (translation (fst st')) = 1 /\ vy (linvel (snd st')) = 0
    /\ on_ground (snd st') = true.
Proof.
  intros Quat t keys dts st' _ _ _ H. exact (fall_until_lands _ _ _ H).
Qed.

Lemma jump_lands_exactly_on_ground_witness :
  exists st', fall_until [1 # 2; 1 # 2; 1 # 2]
    (mkTransform (mkVec3 8 1 8) tt,
     player_jump (mkKeys false false false false true) (mkVelocity vzero true)) = Some st'
  /\ vy (translation (fst st')) = 1 /\ vy (linvel (snd st')) = 0
  /\ on_ground (snd st') = true.
Proof.
  eexists. split; [vm_compute; reflexivity|].
  apply (jump_lands_exactly_on_ground unit (mkTransform (mkVec3 8 1 8) tt)
           (mkKeys false false false false true) [1 # 2; 1 # 2; 1 # 2]).
  - reflexivity.
  - reflexivity.
  - repeat constructor.
  - vm_compute. reflexivity.
Defined.

(** C3: [player_jump] on a jump edge while grounded sets the vertical
    velocity to exactly 5.0 and clears [on_ground] (Airborne); while Airborne
    it changes nothing. *)
Theorem player_jump_spec :
  forall (keys : Keys) (v : Velocity),
    (on_ground v = true -> space_just_pressed keys = true ->
       vy (linvel (player_jump keys v)) = 5 /\ on_ground (player_jump keys v) = false
       /\ vx (linvel (player_jump keys v)) = vx (linvel v)
       /\ vz (linvel (player_jump keys v)) = vz (linvel v))
    /\ (on_ground v = false -> player_jump keys v = v).
Proof.
  intros keys v. unfold player_jump. split.
  - intros -> ->. simpl. auto.
  - intros ->. reflexivity.
Qed.

Lemma player_jump_spec_witness :
  player_jump (mkKeys false false false false true) (mkVelocity vzero false)
    = mkVelocity vzero false
  /\ on_ground (player_jump (mkKeys false false false false true) (mkVelocity vzero true)) = false.
Proof.
  split.
  - apply (proj2 (player_jump_spec (mkKeys false false false false true) (mkVelocity vzero false))).
    reflexivity.
  - apply (proj1 (player_jump_spec (mkKeys false false false false true) (mkVelocity vzero true)));
      reflexivity.
Defined.

(** ** Horizontal movement *)

(** C4: in the application of [main], which also schedules [apply_gravity]
    and [player_jump], a Space edge still makes [player_movement] add
    [JUMP_SPEED * dt] to the height: standing at height 1.0, no movement key,
    [dt = 0.1], the movement update alone lifts the player to 1.5. *)
Theorem movement_adds_jump_offset :
  forall (Quat : Type) fwd right qsqrt (rot : Quat),
    let t' := player_movement Quat fwd right qsqrt
                (mkKeys false false false false true) (1 # 10)
                (mkTransform (mkVec3 8 1 8) rot) in
    vy (translation t') == 3 # 2 /\ vx (translation t') == 8 /\ vz (translation t') == 8.
Proof.
  intros Quat fwd right qsqrt rot t'. subst t'.
  unfold player_movement.
  destruct (movement_displacement_opposite fwd right qsqrt
              (mkKeys false false false false true) (1 # 10) (mkTransform (mkVec3 8 1 8) rot)
              eq_refl eq_refl) as (Hx & Hy & Hz).
  destruct (movement_displacement Quat fwd right qsqrt _ _ _) as [dx dy dz].
  simpl in *.
  rewrite (Qltb_compat (1 + dy + JUMP_SPEED * (1 # 10)) (3 # 2) 1 1);
    [| rewrite Hy; reflexivity | reflexivity].
  simpl. rewrite Hx, Hy, Hz. repeat split; reflexivity.
Qed.

(** C7: when forward and backward are held alike and right and left are held
    alike (opposite keys together, or none), the displacement of the frame is
    zero and [player_movement] leaves both horizontal coordinates unchanged,
    for every orientation and every [dt]. *)
Theorem opposite_keys_zero_horizontal_displacement :
  forall (Quat : Type) fwd right qsqrt (keys : Keys) (dt : Q) (t : Transform Quat),
    key_w keys = key_s keys -> key_d keys = key_a keys ->
    vx (movement_displacement Quat fwd right qsqrt keys dt t) == 0
    /\ vy (movement_displacement Quat fwd right qsqrt keys dt t) == 0
    /\ vz (movement_displacement Quat fwd right qsqrt keys dt t) == 0
    /\ vx (translation (player_movement Quat fwd right qsqrt keys dt t)) == vx (translation t)
    /\ vz (translation (player_movement Quat fwd right qsqrt keys dt t)) == vz (translation t).
Proof.
  intros Quat fwd right qsqrt keys dt t Hws Hda.
  destruct (movement_displacement_opposite fwd right qsqrt keys dt t Hws Hda)
    as (Hx & Hy & Hz).
  unfold player_movement.
  destruct (movement_displacement Quat fwd right qsqrt keys dt t) as [dx dy dz].
  simpl in *. repeat split; try assumption;
  destruct (space_just_pressed keys); cbv zeta;
  match goal with |- context [if ?c then _ else _] => destruct c end;
  simpl; rewrite ?Hx, ?Hz; ring.
Qed.

Lemma opposite_keys_zero_horizontal_displacement_witness :
  vx (translation (player_movement unit (fun _ => mkVec3 0 0 (-1)) (fun _ => mkVec3 1 0 0)
        (fun q => q) (mkKeys true true true true false) (1 # 30)
        (mkTransform (mkVec3 8 1 8) tt))) == 8.
Proof.
  apply (opposite_keys_zero_horizontal_displacement unit (fun _ => mkVec3 0 0 (-1))
           (fun _ => mkVec3 1 0 0) (fun q => q) (mkKeys true true true true false) (1 # 30)
           (mkTransform (mkVec3 8 1 8) tt)); reflexivity.
Defined.

(** ** Block targeting *)

(** C5: [place_or_destroy_block] writes at most one event per frame: on a
    left edge exactly one despawn event at [floor(origin + forward * 1)],
    whatever the right button does; on a right edge alone exactly one place
    event at [floor(origin + forward * 0)]; nothing otherwise.  Facing
    [(0,-1,0)] from [(8,5,8)], a left edge gives the one despawn event at
    [(8,4,8)]. *)
Theorem place_or_destroy_block_single_intent :
  forall (Quat : Type) fwd (b : Buttons) (cam : Transform Quat),
    place_or_destroy_block Quat fwd b cam =
      (if left_just_pressed b
       then ([], [floor3 (vadd (translation cam) (vscale (fwd (rotation cam)) 1))])
       else if right_just_pressed b
       then ([floor3 (vadd (translation cam) (vscale (fwd (rotation cam)) 0))], [])
       else ([], []))
    /\ (length (fst (place_or_destroy_block Quat fwd b cam))
        + length (snd (place_or_destroy_block Quat fwd b cam)) <= 1)%nat
    /\ (translation cam = mkVec3 8 5 8 -> fwd (rotation cam) = mkVec3 0 (-1) 0 ->
        left_just_pressed b = true ->
        place_or_destroy_block Quat fwd b cam = ([], [mkIVec3 8 4 8])).
Proof.
  intros Quat fwd b cam. rewrite place_or_destroy_block_eq. split; [reflexivity|split].
  - destruct (left_just_pressed b), (right_just_pressed b); simpl; lia.
  - intros Ht Hf Hl. rewrite Ht, Hf, Hl. reflexivity.
Qed.

Lemma place_or_destroy_block_single_intent_witness :
  place_or_destroy_block unit (fun _ => mkVec3 0 (-1) 0) (mkButtons true true)
    (mkTransform (mkVec3 8 5 8) tt) = ([], [mkIVec3 8 4 8]).
Proof.
  apply (place_or_destroy_block_single_intent unit (fun _ => mkVec3 0 (-1) 0)
           (mkButtons true true) (mkTransform (mkVec3 8 5 8) tt)); reflexivity.
Defined.

(** ** Block events *)

(** C8: on a right edge alone, two frames at the same pose write two place
    events at the same cell [floor(origin)], and [handle_place_block] spawns
    a cube at [cell + (0, 0.5, 0)] for each, whatever the world already
    holds: two cubes at the same position. *)
Theorem place_twice_spawns_two_cubes :
  forall (Quat : Type) fwd (b : Buttons) (cam : Transform Quat) (w : World),
    left_just_pressed b = false -> right_just_pressed b = true ->
    let p := floor3 (translation cam) in
    let c := vadd (of_ivec p) (vscale vY (1 # 2)) in
    let ev1 := place_or_destroy_block Quat fwd b cam in
    let w1 := handle_place_block (fst ev1) w in
    let ev2 := place_or_destroy_block Quat fwd b cam in
    let w2 := handle_place_block (fst ev2) w1 in
    ev1 = ([p], []) /\ ev2 = ([p], [])
    /\ entities w2 = entities w ++ [mkEntity (next_eid w) c KBlock;
                                    mkEntity (S (next_eid w)) c KBlock]
    /\ next_eid w2 = S (S (next_eid w)).
Proof.
  intros Quat fwd b cam w Hl Hr p c ev1 w1 ev2 w2.
  assert (He : place_or_destroy_block Quat fwd b cam = ([p], [])).
  { rewrite place_or_destroy_block_eq, Hl, Hr, floor3_place_pos. reflexivity. }
  subst ev1 ev2 w1 w2. rewrite He. simpl.
  rewrite <- app_assoc. repeat split; reflexivity.
Qed.

Lemma place_twice_spawns_two_cubes_witness :
  let b := mkButtons false true in
  let cam := mkTransform (mkVec3 8 5 8) tt in
  let fwd := fun _ : unit => mkVec3 0 (-1) 0 in
  let c := vadd (of_ivec (mkIVec3 8 5 8)) (vscale vY (1 # 2)) in
  entities (handle_place_block (fst (place_or_destroy_block unit fwd b cam))
              (handle_place_block (fst (place_or_destroy_block unit fwd b cam))
                 (mkWorld [] 0)))
  = [mkEntity 0 c KBlock; mkEntity 1 c KBlock].
Proof.
  destruct (place_twice_spawns_two_cubes unit (fun _ => mkVec3 0 (-1) 0)
              (mkButtons false true) (mkTransform (mkVec3 8 5 8) tt) (mkWorld [] 0)
              eq_refl eq_refl) as (_ & _ & H & _).
  exact H.
Defined.

(** C9: for one despawn event at [pos], [handle_despawn_block] destroys
    either nothing, when no non-player entity floors to [pos], or exactly
    the first one in iteration order that does, and no other entity. *)
Theorem despawn_first_match_only :
  forall (pos : IVec3) (w : World),
    NoDup (map eid (entities w)) ->
    (despawn_commands [pos] (entities w) = []
     /\ (forall e, In e (entities w) -> is_player (ekind e) = false ->
                   ivec_eqb (floor3 (etranslation e)) pos = false)
     /\ entities (handle_despawn_block [pos] w) = entities w)
    \/
    (exists pre e post,
       entities w = pre ++ e :: post
       /\ is_player (ekind e) = false /\ ivec_eqb (floor3 (etranslation e)) pos = true
       /\ (forall e', In e' pre -> is_player (ekind e') = false ->
                      ivec_eqb (floor3 (etranslation e')) pos = false)
       /\ despawn_commands [pos] (entities w) = [eid e]
       /\ entities (handle_despawn_block [pos] w) = pre ++ post).
Proof.
  intros pos w Hnd.
  unfold handle_despawn_block, apply_despawns, despawn_commands. simpl.
  unfold despawn_target.
  destruct (find _ (filter _ (entities w))) as [e|] eqn:Ef.
  - right.
    destruct (find_filter_some _ _ _ _ Ef) as (pre & post & Hw & Hg & Hf & Hpre).
    exists pre, e, post.
    split; [exact Hw|].
    split; [apply negb_true_iff in Hg; exact Hg|].
    split; [exact Hf|].
    split; [intros e' Hin Hp; apply Hpre; [exact Hin | rewrite Hp; reflexivity]|].
    split; [reflexivity|].
    rewrite Hw in Hnd |- *. rewrite map_app in Hnd. simpl in Hnd.
    apply NoDup_remove_2 in Hnd. rewrite <- map_app in Hnd.
    change ([eid e] ++ []) with [eid e].
    change (e :: post) with ([e] ++ post). rewrite !filter_app.
    rewrite (despawn_filter_keep pre), (despawn_filter_keep post);
      [| intro H; apply Hnd; rewrite map_app; apply in_or_app; auto ..].
    simpl. rewrite Nat.eqb_refl. reflexivity.
  - left. split; [reflexivity|]. split.
    + intros e Hin Hp. apply (find_filter_none _ _ _ Ef e Hin). rewrite Hp. reflexivity.
    + simpl. clear. induction (entities w) as [|a l IH]; simpl; [reflexivity|].
      f_equal. exact IH.
Qed.

Lemma despawn_first_match_only_witness :
  let w := mkWorld [mkEntity 0 (mkVec3 4 8 4) KLight;
                    mkEntity 1 (mkVec3 8 (1 # 2) 8) KBlock;
                    mkEntity 2 (mkVec3 (33 # 4) (1 # 4) 8) KBlock] 3 in
  entities (handle_despawn_block [mkIVec3 8 0 8] w)
    = [mkEntity 0 (mkVec3 4 8 4) KLight; mkEntity 2 (mkVec3 (33 # 4) (1 # 4) 8) KBlock]
  /\ ((despawn_commands [mkIVec3 8 0 8] (entities w) = []
       /\ (forall e, In e (entities w) -> is_player (ekind e) = false ->
                     ivec_eqb (floor3 (etranslation e)) (mkIVec3 8 0 8) = false)
       /\ entities (handle_despawn_block [mkIVec3 8 0 8] w) = entities w)
      \/
      (exists pre e post,
         entities w = pre ++ e :: post
         /\ is_player (ekind e) = false
         /\ ivec_eqb (floor3 (etranslation e)) (mkIVec3 8 0 8) = true
         /\ (forall e', In e' pre -> is_player (ekind e') = false ->
                        ivec_eqb (floor3 (etranslation e')) (mkIVec3 8 0 8) = false)
         /\ despawn_commands [mkIVec3 8 0 8] (entities w) = [eid e]
         /\ entities (handle_despawn_block [mkIVec3 8 0 8] w) = pre ++ post)).
Proof.
  split; [vm_compute; reflexivity|].
  apply despawn_first_match_only.
  simpl. repeat constructor; simpl; intuition discriminate.
Defined.

Lemma setup_despawn_matches :
  filter (fun e => negb (is_player (ekind e))
                   && ivec_eqb (floor3 (etranslation e)) (mkIVec3 4 8 4))
    (entities setup_world) = [setup_light].
Proof. vm_compute. reflexivity. Qed.

(** C10: the query of [handle_despawn_block] is every entity without
    [Player], not only cubes: in any iteration order of the entities spawned
    by [setup], a despawn event at [(4,8,4)] matches the directional light
    (floored [(4.0, 8.0, 4.0)]) and destroys it. *)
Theorem despawn_can_destroy_light :
  forall (es : list Entity) (n : nat),
    Permutation es (entities setup_world) ->
    ekind setup_light = KLight
    /\ In setup_light es
    /\ despawn_target (mkIVec3 4 8 4) es = Some setup_light
    /\ despawn_commands [mkIVec3 4 8 4] es = [eid setup_light]
    /\ ~ In setup_light (entities (handle_despawn_block [mkIVec3 4 8 4] (mkWorld es n))).
Proof.
  intros es n Hp.
  assert (Hf : filter (fun e => negb (is_player (ekind e))
                                && ivec_eqb (floor3 (etranslation e)) (mkIVec3 4 8 4)) es
               = [setup_light]).
  { apply Permutation_length_1_inv. rewrite <- setup_despawn_matches.
    apply Permutation_filter_bool. symmetry. exact Hp. }
  assert (Ht : despawn_target (mkIVec3 4 8 4) es = Some setup_light).
  { unfold despawn_target. rewrite find_filter_hd, Hf. reflexivity. }
  assert (Hin : In setup_light es).
  { assert (H : In setup_light [setup_light]) by (left; reflexivity).
    rewrite <- Hf in H. apply filter_In in H. apply H. }
  split; [reflexivity|]. split; [exact Hin|]. split; [exact Ht|].
  assert (Hc : despawn_commands [mkIVec3 4 8 4] es = [eid setup_light]).
  { unfold despawn_commands. simpl. rewrite Ht. reflexivity. }
  split; [exact Hc|].
  unfold handle_despawn_block. change (entities (mkWorld es n)) with es.
  rewrite Hc. unfold apply_despawns. cbn [entities].
  intro H. apply filter_In in H. destruct H as [_ H].
  simpl in H. discriminate.
Qed.

Lemma despawn_can_destroy_light_witness :
  despawn_commands [mkIVec3 4 8 4] (rev (entities setup_world)) = [0%nat].
Proof.
  apply (despawn_can_destroy_light (rev (entities setup_world)) 258).
  symmetry. apply Permutation_rev.
Defined.

(** ** Further properties of the systems *)

(** [apply_gravity] never leaves the entity below the ground height 1.0. *)
Theorem apply_gravity_above_ground :
  forall (Quat : Type) (dt : Q) (st : Transform Quat * Velocity),
    1 <= vy (translation (fst (apply_gravity Quat dt st))).
Proof.
  intros Quat dt [t v]. unfold apply_gravity.
  match goal with |- context [if Qle_bool ?y 1 then _ else _] =>
    destruct (Qle_bool y 1) eqn:E end; cbn [fst translation vy vset_y].
  - apply Qle_refl.
  - apply Qlt_le_weak, Qnot_le_lt. intro H. apply Qle_bool_iff in H. congruence.
Qed.



(** A grounded entity at rest, at or below the ground height, ends the frame
    at exactly height 1.0, with zero velocity, still grounded, and with its
    horizontal position unchanged. *)
Theorem apply_gravity_rest :
  forall (Quat : Type) (dt : Q) (t : Transform Quat),
    vy (translation t) <= 1 ->
    let st' := apply_gravity Quat dt (t, mkVelocity vzero true) in
    vy (translation (fst st')) = 1
    /\ vx (translation (fst st')) == vx (translation t)
    /\ vz (translation (fst st')) == vz (translation t)
    /\ rotation (fst st') = rotation t
    /\ snd st' = mkVelocity vzero true.
Proof.
  intros Quat dt t Hy st'. subst st'. unfold apply_gravity. cbn [negb on_ground].
  destruct (Qle_bool _ 1) eqn:E.
  - cbn. repeat split; try reflexivity; ring.
  - exfalso. assert (H : vy (vadd (translation t) (vscale (linvel (mkVelocity vzero true)) dt)) <= 1).
    { cbn. setoid_replace (vy (translation t) + 0 * dt) with (vy (translation t)) by ring.
      exact Hy. }
    apply Qle_bool_iff in H. congruence.
Qed.

Lemma apply_gravity_rest_witness :
  snd (apply_gravity unit (1 # 60) (mkTransform (mkVec3 3 1 7) tt, mkVelocity vzero true))
  = mkVelocity vzero true.
Proof.
  apply (apply_gravity_rest unit (1 # 60) (mkTransform (mkVec3 3 1 7) tt)).
  apply Qle_refl.
Defined.

(** [player_movement] always leaves the player at height 1.0 or above (the
    ground clamp) and never changes its rotation. *)
Theorem player_movement_above_ground :
  forall (Quat : Type) fwd right qsqrt (keys : Keys) (dt : Q) (t : Transform Quat),
    1 <= vy (translation (player_movement Quat fwd right qsqrt keys dt t))
    /\ rotation (player_movement Quat fwd right qsqrt keys dt t) = rotation t.
Proof.
  intros Quat fwd right qsqrt keys dt t. unfold player_movement. cbv zeta.
  split; [|reflexivity].
  match goal with |- context [if Qltb ?y 1 then _ else _] =>
    destruct (Qltb y 1) eqn:E end; cbn [translation vy vset_y].
  - apply Qle_refl.
  - unfold Qltb in E. apply negb_false_iff, Qle_bool_iff in E. exact E.
Qed.


Lemma floor3_contains (v : Vec3) : cell_contains (floor3 v) v.
Proof.
  unfold cell_contains, floor3; simpl.
  repeat split; (apply Qfloor_le || apply Qlt_floor).
Qed.

(** The despawn event of a left edge names the unit cell that contains the
    point one unit ahead of the camera, [origin + forward]; the place event
    of a right edge alone names the cell that contains the camera itself. *)
Theorem block_event_cells :
  forall (Quat : Type) fwd (b : Buttons) (cam : Transform Quat),
    (left_just_pressed b = true ->
     exists p, place_or_destroy_block Quat fwd b cam = ([], [p])
               /\ cell_contains p (vadd (translation cam) (fwd (rotation cam))))
    /\ (left_just_pressed b = false -> right_just_pressed b = true ->
        exists p, place_or_destroy_block Quat fwd b cam = ([p], [])
                  /\ cell_contains p (translation cam)).
Proof.
  intros Quat fwd b cam. rewrite place_or_destroy_block_eq. split.
  - intros ->. eexists. split; [reflexivity|].
    unfold cell_contains, floor3. cbn [vadd vscale vx vy vz ix iy iz].
    assert (E : forall a b : Q, Qfloor (a + b * inject_Z 1) = Qfloor (a + b))
      by (intros; apply Qfloor_comp; ring).
    rewrite !E. exact (floor3_contains (vadd (translation cam) (fwd (rotation cam)))).
  - intros -> ->. eexists. split; [reflexivity|].
    rewrite floor3_place_pos. apply floor3_contains.
Qed.

Lemma block_event_cells_witness :
  exists p, place_or_destroy_block unit (fun _ => mkVec3 0 (-1) 0) (mkButtons false true)
              (mkTransform (mkVec3 (17 # 2) 5 8) tt) = ([p], [])
            /\ cell_contains p (mkVec3 (17 # 2) 5 8).
Proof.
  apply (proj2 (block_event_cells unit (fun _ => mkVec3 0 (-1) 0) (mkButtons false true)
                  (mkTransform (mkVec3 (17 # 2) 5 8) tt))); reflexivity.
Defined.

Lemma floor_half_above (z : Z) : Qfloor (inject_Z z + 1 * (1 # 2)) = z.
Proof.
  unfold Qfloor, inject_Z. cbn -[Z.mul Z.add Z.div].
  rewrite Z.div_add_l by lia. simpl. apply Z.add_0_r.
Qed.

Lemma floor_spawn_pos (p : IVec3) :
  floor3 (vadd (of_ivec p) (vscale vY (1 # 2))) = p.
Proof.
  destruct p as [x y z]. unfold floor3, of_ivec, vY. cbn [vadd vscale vx vy vz ix iy iz].
  rewrite floor_half_above.
  assert (E : forall a : Z, Qfloor (inject_Z a + 0 * (1 # 2)) = a).
  { intros a. rewrite <- (Qfloor_Z a) at 2. apply Qfloor_comp. ring. }
  rewrite !E. reflexivity.
Qed.

Lemma find_app_none {A} (f : A -> bool) (l1 l2 : list A) :
  find f l1 = None -> find f (l1 ++ l2) = find f l2.
Proof.
  induction l1 as [|a l1 IH]; simpl; intros H; [reflexivity|].
  destruct (f a); [discriminate | exact (IH H)].
Qed.


(** Round trip: placing a cube at a cell where no non-player entity sits, then
    despawning that cell, gives back the original entities. *)
Theorem place_then_despawn_restores :
  forall (p : IVec3) (w : World),
    (forall e, In e (entities w) -> is_player (ekind e) = false ->
               ivec_eqb (floor3 (etranslation e)) p = false) ->
    ~ In (next_eid w) (map eid (entities w)) ->
    entities (handle_despawn_block [p] (handle_place_block [p] w)) = entities w.
Proof.
  intros p w Hfree Hid.
  set (c := vadd (of_ivec p) (vscale vY (1 # 2))).
  assert (Hw : handle_place_block [p] w
               = mkWorld (entities w ++ [mkEntity (next_eid w) c KBlock]) (S (next_eid w)))
    by reflexivity.
  assert (Hnone : find (fun e => ivec_eqb (floor3 (etranslation e)) p)
                    (filter (fun e => negb (is_player (ekind e))) (entities w)) = None).
  { rewrite find_filter_hd.
    destruct (filter _ (entities w)) as [|e l] eqn:Ef; [reflexivity|].
    exfalso. assert (Hin : In e (filter (fun x => negb (is_player (ekind x))
                                  && ivec_eqb (floor3 (etranslation x)) p) (entities w)))
      by (rewrite Ef; left; reflexivity).
    apply filter_In in Hin. destruct Hin as [Hin Hb].
    apply andb_true_iff in Hb. destruct Hb as [Hp Hm].
    apply negb_true_iff in Hp. rewrite (Hfree e Hin Hp) in Hm. discriminate. }
  assert (Ht : despawn_target p (entities w ++ [mkEntity (next_eid w) c KBlock])
               = Some (mkEntity (next_eid w) c KBlock)).
  { unfold despawn_target. rewrite filter_app, (find_app_none _ _ _ Hnone). simpl.
    subst c. rewrite floor_spawn_pos.
    destruct p as [x y z]. unfold ivec_eqb. simpl. rewrite !Z.eqb_refl. reflexivity. }
  rewrite Hw. unfold handle_despawn_block, despawn_commands.
  change (entities (mkWorld (entities w ++ [mkEntity (next_eid w) c KBlock]) (S (next_eid w))))
    with (entities w ++ [mkEntity (next_eid w) c KBlock]).
  simpl flat_map. rewrite Ht. unfold apply_despawns.
  cbn [entities].
  change ([eid (mkEntity (next_eid w) c KBlock)] ++ []) with [next_eid w].
  rewrite filter_app, despawn_filter_keep by exact Hid.
  simpl. rewrite Nat.eqb_refl. apply app_nil_r.
Qed.

Lemma place_then_despawn_restores_witness :
  entities (handle_despawn_block [mkIVec3 8 1 8] (handle_place_block [mkIVec3 8 1 8] setup_world))
  = entities setup_world.
Proof.
  apply place_then_despawn_restores.
  - intros e Hin Hp.
    assert (H : forallb (fun e => is_player (ekind e)
                   || negb (ivec_eqb (floor3 (etranslation e)) (mkIVec3 8 1 8)))
                  (entities setup_world) = true) by (vm_compute; reflexivity).
    rewrite forallb_forall in H. specialize (H e Hin). rewrite Hp in H.
    apply negb_true_iff in H. exact H.
  - assert (H : existsb (Nat.eqb 258) (map eid (entities setup_world)) = false)
      by (vm_compute; reflexivity).
    intro Hin. assert (Hx : existsb (Nat.eqb 258) (map eid (entities setup_world)) = true)
      by (apply existsb_exists; exists 258%nat; split; [exact Hin | apply Nat.eqb_refl]).
    rewrite Hx in H. discriminate H.
Defined.

Lemma despawn_target_in (pos : IVec3) (es : list Entity) (e : Entity) :
  despawn_target pos es = Some e -> In e es /\ is_player (ekind e) = false.
Proof.
  unfold despawn_target. intros H.
  destruct (find_filter_some _ _ _ _ H) as (pre & post & Hes & Hg & _ & _).
  split.
  - rewrite Hes. apply in_or_app. right. left. reflexivity.
  - apply negb_true_iff in Hg. exact Hg.
Qed.

Lemma despawn_commands_sources (evs : list IVec3) (es : list Entity) (n : nat) :
  In n (despawn_commands evs es) ->
  exists e, In e es /\ is_player (ekind e) = false /\ eid e = n.
Proof.
  unfold despawn_commands. intros H. apply in_flat_map in H.
  destruct H as (pos & _ & H).
  destruct (despawn_target pos es) as [e|] eqn:Et; [|contradiction].
  destruct H as [<-|[]]. destruct (despawn_target_in _ _ _ Et) as [Hin Hp].
  exists e. auto.
Qed.

Lemma despawn_commands_length (evs : list IVec3) (es : list Entity) :
  (length (despawn_commands evs es) <= length evs)%nat.
Proof.
  unfold despawn_commands. induction evs as [|pos evs IH]; simpl; [lia|].
  rewrite length_app. destruct (despawn_target pos es); simpl; lia.
Qed.

Lemma nodup_map_same {A B} (f : A -> B) (l : list A) (x y : A) :
  NoDup (map f l) -> In x l -> In y l -> f x = f y -> x = y.
Proof.
  induction l as [|a l IH]; simpl; intros Hnd Hx Hy Hf; [contradiction|].
  inversion Hnd as [|? ? Hna Hnd']; subst.
  destruct Hx as [<-|Hx], Hy as [<-|Hy]; auto.
  - exfalso. apply Hna. rewrite Hf. apply in_map, Hy.
  - exfalso. apply Hna. rewrite <- Hf. apply in_map, Hx.
Qed.

Lemma nodup_map_filter {A B} (f : A -> B) (g : A -> bool) (l : list A) :
  NoDup (map f l) -> NoDup (map f (filter g l)).
Proof.
  induction l as [|a l IH]; simpl; intros Hnd; [constructor|].
  inversion Hnd as [|? ? Hna Hnd']; subst.
  destruct (g a); simpl; [constructor|]; auto.
  intro H. apply Hna. apply in_map_iff in H. destruct H as (x & Hx & Hin).
  apply filter_In in Hin. rewrite <- Hx. apply in_map, Hin.
Qed.

Lemma filter_length_split {A} (f : A -> bool) (l : list A) :
  length l = (length (filter f l) + length (filter (fun x => negb (f x)) l))%nat.
Proof.
  induction l as [|a l IH]; simpl; [reflexivity|].
  destruct (f a); simpl; lia.
Qed.

(** [handle_despawn_block] never despawns the player (entity ids being
    distinct), only removes entities, removes at most one entity per event,
    and leaves the id counter alone. *)
Theorem handle_despawn_block_safe :
  forall (evs : list IVec3) (w : World),
    NoDup (map eid (entities w)) ->
    (forall e, In e (entities w) -> is_player (ekind e) = true ->
               In e (entities (handle_despawn_block evs w)))
    /\ incl (entities (handle_despawn_block evs w)) (entities w)
    /\ (length (entities w) <= length (entities (handle_despawn_block evs w)) + length evs)%nat
    /\ next_eid (handle_despawn_block evs w) = next_eid w.
Proof.
  intros evs w Hnd.
  set (ids := despawn_commands evs (entities w)).
  assert (Hw : handle_despawn_block evs w
               = mkWorld (filter (fun e => negb (existsb (Nat.eqb (eid e)) ids)) (entities w))
                   (next_eid w)) by reflexivity.
  rewrite Hw. cbn [entities next_eid].
  split; [|split; [|split]].
  - intros e Hin Hp. apply filter_In. split; [exact Hin|].
    apply negb_true_iff. destruct (existsb _ ids) eqn:Ex; [|reflexivity].
    apply existsb_exists in Ex. destruct Ex as (n & Hn & Heq).
    apply Nat.eqb_eq in Heq. subst n.
    destruct (despawn_commands_sources _ _ _ Hn) as (e' & Hin' & Hp' & Hid).
    rewrite (nodup_map_same eid (entities w) e' e Hnd Hin' Hin Hid) in Hp'. congruence.
  - intros e Hin. apply filter_In in Hin. apply Hin.
  - rewrite (filter_length_split (fun e => negb (existsb (Nat.eqb (eid e)) ids)) (entities w)).
    enough (H : (length (filter (fun x => negb (negb (existsb (Nat.eqb (eid x)) ids)))
                                (entities w)) <= length ids)%nat)
      by (pose proof (despawn_commands_length evs (entities w)); subst ids; lia).
    rewrite <- (length_map eid).
    apply NoDup_incl_length; [apply nodup_map_filter, Hnd|].
    intros n Hn. apply in_map_iff in Hn. destruct Hn as (e & <- & Hin).
    apply filter_In in Hin. destruct Hin as [_ Hb]. rewrite negb_involutive in Hb.
    apply existsb_exists in Hb. destruct Hb as (m & Hm & Heq).
    apply Nat.eqb_eq in Heq. rewrite Heq. exact Hm.
  - reflexivity.
Qed.

Lemma handle_despawn_block_safe_witness :
  In (mkEntity 257 (mkVec3 8 5 8) KPlayer)
     (entities (handle_despawn_block [mkIVec3 8 5 8; mkIVec3 4 8 4] setup_world)).
Proof.
  assert (Hnd : NoDup (map eid (entities setup_world))).
  { assert (E : map eid (entities setup_world) = seq 0 258) by (vm_compute; reflexivity).
    rewrite E. apply seq_NoDup. }
  assert (Hin : In (mkEntity 257 (mkVec3 8 5 8) KPlayer) (entities setup_world)).
  { assert (E : filter (fun e => is_player (ekind e)) (entities setup_world)
                 = [mkEntity 257 (mkVec3 8 5 8) KPlayer]) by (vm_compute; reflexivity).
    assert (H : In (mkEntity 257 (mkVec3 8 5 8) KPlayer)
                  (filter (fun e => is_player (ekind e)) (entities setup_world)))
      by (rewrite E; left; reflexivity).
    apply filter_In in H. exact (proj1 H). }
  exact (proj1 (handle_despawn_block_safe [mkIVec3 8 5 8; mkIVec3 4 8 4] setup_world Hnd)
           _ Hin eq_refl).
Defined.

(** Two despawn events for the same cell in one frame act as one: both scan
    the same snapshot, so at most one entity goes. *)
Theorem handle_despawn_block_repeat :
  forall (p : IVec3) (w : World),
    handle_despawn_block [p; p] w = handle_despawn_block [p] w.
Proof.
  intros p w. unfold handle_despawn_block, despawn_commands, apply_despawns. simpl.
  destruct (despawn_target p (entities w)) as [e|]; simpl; [|reflexivity].
  f_equal. apply filter_ext. intros x. destruct (Nat.eqb (eid x) (eid e)); reflexivity.
Qed.

